(** * Inventory and bidding back end (mian.py): model and properties

    The Python program keeps an inventory of items and runs time-boxed
    offers on reserved stock.  This file embeds the three classes of
    mian.py (Item, Offer, InventoryManager) as pure functions with explicit
    state passing and proves the properties of the specification.

    Modelling choices:
    - Python [int] is unbounded: stock, quantities and the offer counter
      are [Z].
    - Bid amounts and unit prices are Python numbers that are only compared
      (and multiplied once, for a one-off order); they are modelled as
      rationals [Q], which contain every finite float and every int with
      the same order.
    - [datetime.now()] is read once per call; the model takes it as an
      explicit argument [now], a timestamp in [Z] like [end_time].
    - [Item.adjust_stock] raises [ValueError]; the model returns a result.
    - The two registries of the manager are dicts used as maps ([gmap]);
      the bids of an offer are a dict whose iteration order decides ties in
      [max], so they are an association list in insertion order.
    - [complete_bid] returns [None] on every path; the paths differ by the
      log record they emit, which the model returns as an [outcome]. *)

From Stdlib Require Import ZArith QArith Lia List.
From stdpp Require Import base option strings pretty list gmap.

Local Open Scope Z_scope.

(** ** Results of a call that may raise ValueError *)

Inductive result (A : Type) : Type :=
| Ok (a : A)
| ValueError.
Arguments Ok {A} a.
Arguments ValueError {A}.

(** ** class Item *)

Module Item.

Record t : Type := mk {
  item_id : string;
  name : string;
  category : string;
  stock : Z;
  unit_price : Q;
  last_restock_date : Z * Z * Z;
  reorder_threshold : Z
}.

(** [self.stock += amount] *)
Definition set_stock (self : t) (s : Z) : t :=
  {| item_id := item_id self; name := name self; category := category self;
     stock := s; unit_price := unit_price self;
     last_restock_date := last_restock_date self;
     reorder_threshold := reorder_threshold self |}.

(** [Item.adjust_stock]: raises when the stock would go negative, otherwise
    adds [amount] to the stock. *)
Definition adjust_stock (self : t) (amount : Z) : result t :=
  if stock self + amount <? 0 then ValueError
  else Ok (set_stock self (stock self + amount)).

End Item.

(** ** Python dict with insertion order (the bids of an offer) *)

Section Dict.
Context {V : Type}.

(** [k in d] and [d[k]] *)
Fixpoint dict_get (d : list (string * V)) (k : string) : option V :=
  match d with
  | [] => None
  | (k', v') :: d' => if decide (k' = k) then Some v' else dict_get d' k
  end.

(** [d[k] = v]: an existing key keeps its position, a new key goes last. *)
Fixpoint dict_set (d : list (string * V)) (k : string) (v : V)
  : list (string * V) :=
  match d with
  | [] => [(k, v)]
  | (k', v') :: d' =>
      if decide (k' = k) then (k', v) :: d' else (k', v') :: dict_set d' k v
  end.
End Dict.

(** ** class Offer *)

Inductive Status : Type := active | completed | cancelled.

Global Instance Status_eq_dec : EqDecision Status.
Proof. solve_decision. Defined.

(** [x > y] on amounts *)
Definition Qgt_bool (x y : Q) : bool := negb (Qle_bool x y).

(** Truth value of a [str]: only the empty string is false.  ([None], the
    other value [winner_id] can take, is false too.) *)
Definition truthy (s : string) : bool := negb (String.eqb s "").

Module Offer.

Record t : Type := mk {
  offer_id : string;
  item_id : string;
  quantity : Z;
  end_time : Z;
  bids : list (string * Q);
  status : Status;
  winner : option string;
  winning_bid : Q
}.

(** [Offer.__init__] *)
Definition new (offer_id item_id : string) (quantity end_time : Z) : t :=
  {| offer_id := offer_id; item_id := item_id; quantity := quantity;
     end_time := end_time; bids := []; status := active; winner := None;
     winning_bid := 0%Q |}.

Definition set_bids (self : t) (b : list (string * Q)) : t :=
  {| offer_id := offer_id self; item_id := item_id self;
     quantity := quantity self; end_time := end_time self; bids := b;
     status := status self; winner := winner self;
     winning_bid := winning_bid self |}.

Definition set_status (self : t) (s : Status) : t :=
  {| offer_id := offer_id self; item_id := item_id self;
     quantity := quantity self; end_time := end_time self;
     bids := bids self; status := s; winner := winner self;
     winning_bid := winning_bid self |}.

(** [offer.status = "completed"; offer.winner = w; offer.winning_bid = a] *)
Definition set_won (self : t) (w : string) (a : Q) : t :=
  {| offer_id := offer_id self; item_id := item_id self;
     quantity := quantity self; end_time := end_time self;
     bids := bids self; status := completed; winner := Some w;
     winning_bid := a |}.

(** [Offer.add_bid]: the returned boolean and the offer after the call. *)
Definition add_bid (self : t) (merchant_id : string) (amount : Q) (now : Z)
  : bool * t :=
  if negb (bool_decide (status self = active)) then (false, self)
  else if end_time self <? now then (false, self)
  else
    match dict_get (bids self) merchant_id with
    | Some prev =>
        if Qle_bool amount prev then (false, self)
        else (true, set_bids self (dict_set (bids self) merchant_id amount))
    | None =>
        (true, set_bids self (dict_set (bids self) merchant_id amount))
    end.

(** [max(items, key=lambda item: item[1])] over a non-empty sequence: the
    running maximum is replaced only by a strictly greater key, so the
    first of several equal maxima is returned. *)
Fixpoint max_by_amount (best : string * Q) (rest : list (string * Q))
  : string * Q :=
  match rest with
  | [] => best
  | x :: rest' =>
      max_by_amount (if Qgt_bool (snd x) (snd best) then x else best) rest'
  end.

(** [Offer.get_highest_bid] *)
Definition get_highest_bid (self : t) : option string * Q :=
  match bids self with
  | [] => (None, 0%Q)
  | b :: rest =>
      let r := max_by_amount b rest in (Some (fst r), snd r)
  end.

End Offer.

(** ** class InventoryManager *)

(** Which path of [complete_bid] ran, named by the record it logs. *)
Inductive credit : Type :=
| Returned        (* info: "Returned ... units of ... to stock." *)
| ReturnFailed    (* critical: "Error returning stock: ..." *)
| ItemMissing.    (* the item of the offer is not in the inventory *)

Inductive outcome : Type :=
| OfferNotFound                     (* error: "Offer ... not found." *)
| AlreadyFinalized                  (* error: "already completed or cancelled" *)
| StillOpen                         (* warning: "Bidding ... is still active." *)
| Won (winner_id : string) (winning_bid : Q)   (* info: "completed. Sold ..." *)
| NoBids (c : credit).              (* info: "completed with no bids." *)

Module InventoryManager.

Record t : Type := mk {
  inventory : gmap string Item.t;
  offers : gmap string Offer.t;
  next_offer_id : Z
}.

(** The fixed list of [_load_initial_inventory]. *)
Definition initial_items : list Item.t :=
  [ Item.mk "TS-A" "T-Shirt style A" "Clothing" 50 20 (2025, 9, 1) 10;
    Item.mk "TS-B" "T-Shirt style B" "Clothing" 20 25 (2025, 9, 15) 5;
    Item.mk "SH-C" "Men's shorts - Cargo" "Clothing" 65 25 (2025, 9, 15) 5 ].

(** [for item in items: self.inventory[item.item_id] = item] *)
Definition load_initial_inventory (inv : gmap string Item.t)
  : gmap string Item.t :=
  fold_left (fun acc item => <[Item.item_id item := item]> acc)
            initial_items inv.

(** [InventoryManager.__init__] *)
Definition init : t :=
  {| inventory := load_initial_inventory ∅; offers := ∅; next_offer_id := 1 |}.

Definition set_inventory (self : t) (inv : gmap string Item.t) : t :=
  {| inventory := inv; offers := offers self;
     next_offer_id := next_offer_id self |}.

Definition set_offers (self : t) (ofs : gmap string Offer.t) : t :=
  {| inventory := inventory self; offers := ofs;
     next_offer_id := next_offer_id self |}.

(** [update_stock]: a manual adjustment; a rejected one is only logged. *)
Definition update_stock (self : t) (item_id : string) (adjustment_amount : Z)
  : t :=
  match inventory self !! item_id with
  | None => self
  | Some item =>
      match Item.adjust_stock item adjustment_amount with
      | Ok item' => set_inventory self (<[item_id := item']> (inventory self))
      | ValueError => self
      end
  end.

(** [f"OFFER-{n}"] *)
Definition format_offer_id (n : Z) : string := "OFFER-" +:+ pretty n.

(** [create_new_offer]: the returned identifier (or [None]) and the
    manager after the call. *)
Definition create_new_offer (self : t) (item_id : string) (quantity : Z)
    (end_time : Z) : option string * t :=
  match inventory self !! item_id with
  | None => (None, self)
  | Some item =>
      match Item.adjust_stock item (- quantity) with
      | Ok item' =>
          let offer_id := format_offer_id (next_offer_id self) in
          let offer := Offer.new offer_id item_id quantity end_time in
          (Some offer_id,
           {| inventory := <[item_id := item']> (inventory self);
              offers := <[offer_id := offer]> (offers self);
              next_offer_id := next_offer_id self + 1 |})
      | ValueError => (None, self)
      end
  end.

(** [track_bid]: the result of [add_bid] is dropped. *)
Definition track_bid (self : t) (offer_id merchant_id : string) (amount : Q)
    (now : Z) : t :=
  match offers self !! offer_id with
  | None => self
  | Some offer =>
      set_offers self
        (<[offer_id := snd (Offer.add_bid offer merchant_id amount now)]>
           (offers self))
  end.

(** The [else] branch of [complete_bid]: the earmarked quantity goes back
    to the stock (a rejected adjustment is only logged), then the offer is
    marked completed. *)
Definition return_stock (self : t) (offer_id : string) (offer : Offer.t)
  : outcome * t :=
  let done := <[offer_id := Offer.set_status offer completed]> (offers self) in
  match inventory self !! Offer.item_id offer with
  | None => (NoBids ItemMissing, set_offers self done)
  | Some item =>
      match Item.adjust_stock item (Offer.quantity offer) with
      | Ok item' =>
          (NoBids Returned,
           {| inventory := <[Offer.item_id offer := item']> (inventory self);
              offers := done;
              next_offer_id := next_offer_id self |})
      | ValueError => (NoBids ReturnFailed, set_offers self done)
      end
  end.

(** [complete_bid]; [if winner_id:] tests the truth value of the winner. *)
Definition complete_bid (self : t) (offer_id : string) (now : Z)
  : outcome * t :=
  match offers self !! offer_id with
  | None => (OfferNotFound, self)
  | Some offer =>
      if negb (bool_decide (Offer.status offer = active))
      then (AlreadyFinalized, self)
      else if now <=? Offer.end_time offer then (StillOpen, self)
      else
        match Offer.get_highest_bid offer with
        | (Some winner_id, winning_bid) =>
            if truthy winner_id then
              (Won winner_id winning_bid,
               set_offers self
                 (<[offer_id := Offer.set_won offer winner_id winning_bid]>
                    (offers self)))
            else return_stock self offer_id offer
        | (None, _) => return_stock self offer_id offer
        end
  end.

(** [process_one_off_order]: the total price (or [None]) and the manager
    after the call. *)
Definition process_one_off_order (self : t) (item_id : string) (quantity : Z)
  : option Q * t :=
  match inventory self !! item_id with
  | None => (None, self)
  | Some item =>
      match Item.adjust_stock item (- quantity) with
      | Ok item' =>
          (Some (Item.unit_price item' * inject_Z quantity)%Q,
           set_inventory self (<[item_id := item']> (inventory self)))
      | ValueError => (None, self)
      end
  end.

(** The calls that change a manager, and runs of them from [init]. *)
Inductive call : Type :=
| UpdateStock (item_id : string) (adjustment_amount : Z)
| CreateNewOffer (item_id : string) (quantity end_time : Z)
| TrackBid (offer_id merchant_id : string) (amount : Q) (now : Z)
| CompleteBid (offer_id : string) (now : Z)
| ProcessOneOffOrder (item_id : string) (quantity : Z).

Definition step (self : t) (c : call) : t :=
  match c with
  | UpdateStock i a => update_stock self i a
  | CreateNewOffer i q e => snd (create_new_offer self i q e)
  | TrackBid o m a now => track_bid self o m a now
  | CompleteBid o now => snd (complete_bid self o now)
  | ProcessOneOffOrder i q => snd (process_one_off_order self i q)
  end.

Definition run (self : t) (cs : list call) : t := fold_left step cs self.

Definition reachable (m : t) : Prop := ∃ cs, m = run init cs.

(** Stock of an item, when the item is known. *)
Definition stock_of (self : t) (item_id : string) : option Z :=
  Item.stock <$> inventory self !! item_id.

End InventoryManager.

(** ** Well-formed managers

    What every run from [InventoryManager.init] keeps true: no stock is
    negative, the counter is at least 1, every stored offer sits under an
    identifier made from a counter value already used, the item of every
    offer is in the inventory, and an active offer has no winner yet. *)

Record wf (m : InventoryManager.t) : Prop := mk_wf {
  wf_stock : ∀ k it,
    InventoryManager.inventory m !! k = Some it → 0 ≤ Item.stock it;
  wf_next : 1 ≤ InventoryManager.next_offer_id m;
  wf_ids : ∀ k o,
    InventoryManager.offers m !! k = Some o →
    ∃ n, 1 ≤ n < InventoryManager.next_offer_id m
         ∧ k = InventoryManager.format_offer_id n;
  wf_items : ∀ k o,
    InventoryManager.offers m !! k = Some o →
    is_Some (InventoryManager.inventory m !! Offer.item_id o);
  wf_winner : ∀ k o,
    InventoryManager.offers m !! k = Some o →
    Offer.status o = active → Offer.winner o = None
}.


(** ** States before and after calls *)

(** Two records of one item that differ at most in the stock. *)
Definition same_item (it it' : Item.t) : Prop :=
  it' = Item.set_stock it (Item.stock it').


(** What every run from [InventoryManager.init] keeps true of the stored
    offers: an offer knows the identifier it is stored under, the
    identifiers in use are those of the counter values from 1 up to the
    current one, no merchant has two entries in the bids, no offer is
    cancelled, an offer with a winner is completed and its winner has a
    non-empty identifier and an entry in the bids whose amount is the
    winning bid and is not exceeded, and an offer without winner has the
    winning bid 0. *)
Record offers_ok (m : InventoryManager.t) : Prop := mk_offers_ok {
  ok_self : ∀ k o,
    InventoryManager.offers m !! k = Some o → Offer.offer_id o = k;
  ok_dense : ∀ n,
    1 ≤ n < InventoryManager.next_offer_id m →
    is_Some (InventoryManager.offers m
               !! InventoryManager.format_offer_id n);
  ok_keys : ∀ k o,
    InventoryManager.offers m !! k = Some o → NoDup (Offer.bids o).*1;
  ok_status : ∀ k o,
    InventoryManager.offers m !! k = Some o → Offer.status o ≠ cancelled;
  ok_winner : ∀ k o w,
    InventoryManager.offers m !! k = Some o → Offer.winner o = Some w →
    Offer.status o = completed
    ∧ truthy w = true
    ∧ (w, Offer.winning_bid o) ∈ Offer.bids o
    ∧ Forall (λ x, (snd x <= Offer.winning_bid o)%Q) (Offer.bids o);
  ok_no_winner : ∀ k o,
    InventoryManager.offers m !! k = Some o → Offer.winner o = None →
    Offer.winning_bid o = 0%Q
}.

(** * Properties *)

(** ** Item.adjust_stock *)


Lemma adjust_stock_accepts (it : Item.t) (amount : Z) :
  0 ≤ Item.stock it + amount →
  Item.adjust_stock it amount
  = Ok (Item.set_stock it (Item.stock it + amount)).
Proof.
  intros H. unfold Item.adjust_stock.
  destruct (Z.ltb_spec (Item.stock it + amount) 0); [lia | done].
Qed.

Lemma adjust_stock_inv (it it' : Item.t) (amount : Z) :
  Item.adjust_stock it amount = Ok it' →
  0 ≤ Item.stock it + amount
  ∧ it' = Item.set_stock it (Item.stock it + amount).
Proof.
  unfold Item.adjust_stock.
  destruct (Z.ltb_spec (Item.stock it + amount) 0); [done |].
  intros [= <-]. done.
Qed.

Lemma adjust_stock_nonneg (it it' : Item.t) (amount : Z) :
  Item.adjust_stock it amount = Ok it' → 0 ≤ Item.stock it'.
Proof. intros [H ->]%adjust_stock_inv. done. Qed.

Lemma set_stock_same (it : Item.t) : Item.set_stock it (Item.stock it) = it.
Proof. by destruct it. Qed.



(** ** Dicts *)

Section DictLemmas.
Context {V : Type}.
Implicit Types (d : list (string * V)) (k : string) (v : V).



(** A new key is appended after the existing entries. *)
Lemma dict_set_fresh d k v :
  dict_get d k = None → dict_set d k v = d ++ [(k, v)].
Proof.
  induction d as [|[k0 v0] d IH]; simpl; [done |].
  destruct (decide (k0 = k)); [done |]. intros H. by rewrite IH.
Qed.

(** An existing key keeps its place; only its value changes. *)
Lemma dict_set_keys d k v :
  is_Some (dict_get d k) → (dict_set d k v).*1 = d.*1.
Proof.
  induction d as [|[k0 v0] d IH]; simpl.
  - by intros [? ?].
  - destruct (decide (k0 = k)) as [->|Hne]; simpl; [done |].
    intros H. f_equal. by apply IH.
Qed.
End DictLemmas.

(** ** Offer.add_bid *)

Lemma add_bid_not_active (o : Offer.t) (merchant_id : string) (amount : Q)
    (now : Z) :
  Offer.status o ≠ active →
  Offer.add_bid o merchant_id amount now = (false, o).
Proof.
  intros H. unfold Offer.add_bid. by rewrite bool_decide_eq_false_2.
Qed.

Lemma add_bid_closed (o : Offer.t) (merchant_id : string) (amount : Q)
    (now : Z) :
  Offer.end_time o < now →
  Offer.add_bid o merchant_id amount now = (false, o).
Proof.
  intros H. unfold Offer.add_bid.
  destruct (negb _); [done |].
  destruct (Z.ltb_spec (Offer.end_time o) now); [done | lia].
Qed.


(** [add_bid] touches nothing but the bids. *)
Lemma add_bid_frame (o : Offer.t) (merchant_id : string) (amount : Q)
    (now : Z) :
  ∃ b, snd (Offer.add_bid o merchant_id amount now) = Offer.set_bids o b.
Proof.
  unfold Offer.add_bid.
  assert (o = Offer.set_bids o (Offer.bids o)) as Hid by (by destruct o).
  repeat case_match; simpl; eauto.
Qed.

Lemma add_bid_item_id (o : Offer.t) (merchant_id : string) (amount : Q)
    (now : Z) :
  Offer.item_id (snd (Offer.add_bid o merchant_id amount now))
  = Offer.item_id o.
Proof. destruct (add_bid_frame o merchant_id amount now) as [b ->]. done. Qed.

(** ** Offer.get_highest_bid *)

(** The scan keeps, to the left of the running maximum, only strictly
    smaller amounts and, between it and the scanned position, only amounts
    that are not greater. *)
Lemma max_by_amount_scan (rest pre0 post0 : list (string * Q))
    (best : string * Q) :
  Forall (λ x, (snd x < snd best)%Q) pre0 →
  Forall (λ x, (snd x <= snd best)%Q) post0 →
  ∃ pre post,
    pre0 ++ best :: post0 ++ rest
    = pre ++ Offer.max_by_amount best rest :: post
    ∧ Forall (λ x, (snd x < snd (Offer.max_by_amount best rest))%Q) pre
    ∧ Forall (λ x, (snd x <= snd (Offer.max_by_amount best rest))%Q) post.
Proof.
  revert pre0 post0 best.
  induction rest as [|x rest IH]; intros pre0 post0 best Hpre Hpost; simpl.
  - exists pre0, post0. by rewrite app_nil_r.
  - unfold Qgt_bool. destruct (Qle_bool (snd x) (snd best)) eqn:E; simpl.
    + apply Qle_bool_iff in E.
      destruct (IH pre0 (post0 ++ [x]) best) as (pre & post & Heq & H1 & H2).
      * done.
      * apply Forall_app. split; [done |]. by constructor.
      * exists pre, post. split; [|done].
        rewrite <- Heq. by rewrite <- app_assoc.
    + assert (snd best < snd x)%Q as Hlt.
      { apply Qnot_le_lt. intros Hle. apply Qle_bool_iff in Hle. congruence. }
      destruct (IH (pre0 ++ best :: post0) [] x) as (pre & post & Heq & H1 & H2).
      * apply Forall_app. split; [|constructor].
        -- eapply Forall_impl; [exact Hpre |]. intros y Hy. simpl in Hy |- *.
           by eapply Qlt_trans.
        -- done.
        -- eapply Forall_impl; [exact Hpost |]. intros y Hy. simpl in Hy |- *.
           by eapply Qle_lt_trans.
      * constructor.
      * exists pre, post. split; [|done].
        rewrite <- Heq. simpl. by rewrite <- app_assoc.
Qed.

(** With no bid the answer is [(None, 0)]. *)
Lemma get_highest_bid_empty (o : Offer.t) :
  Offer.bids o = [] → Offer.get_highest_bid o = (None, 0%Q).
Proof. intros H. unfold Offer.get_highest_bid. by rewrite H. Qed.

(** With at least one bid the answer is an entry of the bids: every entry
    inserted before it has a strictly smaller amount and every entry
    inserted after it has an amount that is not greater. *)
Lemma get_highest_bid_first_max (o : Offer.t) :
  Offer.bids o ≠ [] →
  ∃ w a pre post,
    Offer.get_highest_bid o = (Some w, a)
    ∧ Offer.bids o = pre ++ (w, a) :: post
    ∧ Forall (λ x, (snd x < a)%Q) pre
    ∧ Forall (λ x, (snd x <= a)%Q) post.
Proof.
  intros Hne. unfold Offer.get_highest_bid.
  destruct (Offer.bids o) as [|b rest]; [done |].
  destruct (max_by_amount_scan rest [] [] b) as (pre & post & Heq & H1 & H2);
    [constructor | constructor |].
  simpl in Heq.
  destruct (Offer.max_by_amount b rest) as [w a] eqn:E. simpl in *.
  by exists w, a, pre, post.
Qed.

(** ** The manager keeps itself well formed *)

Section Invariant.
Import InventoryManager.
Implicit Types (m : InventoryManager.t) (c : call).

Lemma set_offers_same m : set_offers m (offers m) = m.
Proof. by destruct m. Qed.

Lemma wf_init : wf init.
Proof.
  split.
  - intros k it H. unfold init, load_initial_inventory in H. simpl in H.
    repeat (apply lookup_insert_Some in H as [[_ <-]|[_ H]]; [simpl; lia |]).
    by rewrite lookup_empty in H.
  - simpl. lia.
  - intros k o H. simpl in H. by rewrite lookup_empty in H.
  - intros k o H. simpl in H. by rewrite lookup_empty in H.
  - intros k o H. simpl in H. by rewrite lookup_empty in H.
Qed.

(** Replacing a known item by one with a non-negative stock. *)
Lemma wf_set_item m k it' :
  wf m → is_Some (inventory m !! k) → 0 ≤ Item.stock it' →
  wf (set_inventory m (<[k := it']> (inventory m))).
Proof.
  intros [H1 H2 H3 H4 H5] Hk Hs. split; simpl.
  - intros j it [[_ <-]|[_ H]]%lookup_insert_Some; [done | by eapply H1].
  - done.
  - done.
  - intros j o H. apply lookup_insert_is_Some'. right. by eapply H4.
  - done.
Qed.

(** Replacing a stored offer by one for the same item that has no winner
    if it is active. *)
Lemma wf_set_offer m k o o' :
  wf m → offers m !! k = Some o → Offer.item_id o' = Offer.item_id o →
  (Offer.status o' = active → Offer.winner o' = None) →
  wf (set_offers m (<[k := o']> (offers m))).
Proof.
  intros [H1 H2 H3 H4 H5] Hk Hi Hw. split; simpl.
  - done.
  - done.
  - intros j x [[<- _]|[_ H]]%lookup_insert_Some; by eapply H3.
  - intros j x [[_ <-]|[_ H]]%lookup_insert_Some.
    + rewrite Hi. by eapply H4.
    + by eapply H4.
  - intros j x [[_ <-]|[_ H]]%lookup_insert_Some; [done | by eapply H5].
Qed.

Lemma wf_update_stock m i a : wf m → wf (update_stock m i a).
Proof.
  intros Hwf. unfold update_stock.
  destruct (inventory m !! i) as [it|] eqn:Hi; [|done].
  destruct (Item.adjust_stock it a) as [it'|] eqn:Ha; [|done].
  apply wf_set_item; [done | by rewrite Hi | by eapply adjust_stock_nonneg].
Qed.

Lemma wf_process_one_off_order m i q :
  wf m → wf (snd (process_one_off_order m i q)).
Proof.
  intros Hwf. unfold process_one_off_order.
  destruct (inventory m !! i) as [it|] eqn:Hi; [|done].
  destruct (Item.adjust_stock it (- q)) as [it'|] eqn:Ha; [|done].
  apply wf_set_item; [done | by rewrite Hi | by eapply adjust_stock_nonneg].
Qed.

Lemma wf_create_new_offer m i q e :
  wf m → wf (snd (create_new_offer m i q e)).
Proof.
  intros Hwf. unfold create_new_offer.
  destruct (inventory m !! i) as [it|] eqn:Hi; [|done].
  destruct (Item.adjust_stock it (- q)) as [it'|] eqn:Ha; [|done].
  destruct Hwf as [H1 H2 H3 H4 H5]. split; simpl.
  - intros j x [[_ <-]|[_ H]]%lookup_insert_Some;
      [by eapply adjust_stock_nonneg | by eapply H1].
  - lia.
  - intros j x [[<- _]|[_ H]]%lookup_insert_Some.
    + exists (next_offer_id m). split; [lia | done].
    + destruct (H3 _ _ H) as (n & Hn & ->). exists n. split; [lia | done].
  - intros j x [[_ <-]|[_ H]]%lookup_insert_Some; simpl.
    + by rewrite lookup_insert_eq.
    + apply lookup_insert_is_Some'. right. by eapply H4.
  - intros j x [[_ <-]|[_ H]]%lookup_insert_Some; [done | by eapply H5].
Qed.

Lemma wf_track_bid m o mer a now : wf m → wf (track_bid m o mer a now).
Proof.
  intros Hwf. unfold track_bid.
  destruct (offers m !! o) as [x|] eqn:Ho; [|done].
  destruct (add_bid_frame x mer a now) as [b Hb].
  eapply wf_set_offer; [done | exact Ho | apply add_bid_item_id |].
  rewrite Hb. simpl. by eapply wf_winner.
Qed.

Lemma wf_return_stock m k o :
  wf m → offers m !! k = Some o → wf (snd (return_stock m k o)).
Proof.
  intros Hwf Ho. unfold return_stock.
  assert (wf (set_offers m
                (<[k := Offer.set_status o completed]> (offers m)))) as Hwf'
    by (by eapply wf_set_offer).
  destruct (inventory m !! Offer.item_id o) as [it|] eqn:Hi; [|done].
  destruct (Item.adjust_stock it (Offer.quantity o)) as [it'|] eqn:Ha;
    [|done].
  apply (wf_set_item _ (Offer.item_id o) it') in Hwf';
    [done | by (simpl; rewrite Hi) | by eapply adjust_stock_nonneg].
Qed.

Lemma wf_complete_bid m k now : wf m → wf (snd (complete_bid m k now)).
Proof.
  intros Hwf. unfold complete_bid.
  destruct (offers m !! k) as [o|] eqn:Ho; [|done].
  destruct (negb _); [done |].
  destruct (now <=? Offer.end_time o); [done |].
  destruct (Offer.get_highest_bid o) as [[w|] a];
    [destruct (truthy w) |]; try by apply wf_return_stock.
  simpl. by eapply wf_set_offer.
Qed.

Lemma wf_step m c : wf m → wf (step m c).
Proof.
  destruct c; simpl;
    auto using wf_update_stock, wf_create_new_offer, wf_track_bid,
      wf_complete_bid, wf_process_one_off_order.
Qed.

Lemma wf_run cs m : wf m → wf (run m cs).
Proof.
  revert m. induction cs as [|c cs IH]; intros m H; [done |].
  simpl. apply IH. by apply wf_step.
Qed.

Lemma reachable_wf m : reachable m → wf m.
Proof. intros [cs ->]. apply wf_run, wf_init. Qed.

Lemma reachable_init : reachable init.
Proof. by exists []. Qed.

Lemma reachable_run m cs : reachable m → reachable (run m cs).
Proof.
  intros [cs0 ->]. exists (cs0 ++ cs). unfold run. by rewrite fold_left_app.
Qed.
End Invariant.

(** ** The stock guard *)

Section StockGuard.
Import InventoryManager.

End StockGuard.

(** ** Bids *)

Section Bids.
Import InventoryManager.

(** C5: a bid submitted strictly after the end time is rejected, whatever
    the amount and whatever the status of the offer, and the offer (so
    its bids) stays as it was, also when the bid comes through
    [track_bid]. *)
Theorem add_bid_after_end_time (o : Offer.t) (merchant_id : string)
    (amount : Q) (now : Z) :
  Offer.end_time o < now →
  Offer.add_bid o merchant_id amount now = (false, o)
  ∧ ∀ m k, offers m !! k = Some o →
           track_bid m k merchant_id amount now = m.
Proof.
  intros H. split; [by apply add_bid_closed |].
  intros m k Hk. unfold track_bid. rewrite Hk, add_bid_closed by done.
  simpl. rewrite insert_id by done. apply set_offers_same.
Qed.

End Bids.

(** ** Finalizing too early or twice *)

Section Refused.
Import InventoryManager.

(** C6: [complete_bid] on an active offer whose end time is not yet
    passed takes the still-open path, and on an offer that is not active
    the already-finalized path; in both cases the manager (offers and
    inventory) is returned as it was. *)
Theorem complete_bid_refused (m : InventoryManager.t) (k : string)
    (o : Offer.t) (now : Z) :
  offers m !! k = Some o →
  (Offer.status o = active → now ≤ Offer.end_time o →
     complete_bid m k now = (StillOpen, m))
  ∧ (Offer.status o ≠ active → complete_bid m k now = (AlreadyFinalized, m)).
Proof.
  intros Hk. unfold complete_bid. rewrite Hk. split.
  - intros Hs Ht. rewrite bool_decide_eq_true_2 by done. simpl.
    destruct (Z.leb_spec now (Offer.end_time o)); [done | lia].
  - intros Hs. by rewrite bool_decide_eq_false_2.
Qed.
End Refused.

(** ** Offer identifiers and the counter *)

Section Identifiers.
Import InventoryManager.
Implicit Types (m : InventoryManager.t) (c : call).

Lemma format_offer_id_inj (n n' : Z) :
  format_offer_id n = format_offer_id n' → n = n'.
Proof.
  unfold format_offer_id. intros H.
  apply (inj (String.app "OFFER-")) in H. by apply (inj pretty) in H.
Qed.

(** The identifier the next offer will get is not in use. *)
Lemma next_id_fresh m :
  wf m → offers m !! format_offer_id (next_offer_id m) = None.
Proof.
  intros Hwf.
  destruct (offers m !! format_offer_id (next_offer_id m)) as [o|] eqn:E;
    [|done].
  destruct (wf_ids m Hwf _ _ E) as (n & Hn & Heq).
  apply format_offer_id_inj in Heq. lia.
Qed.


End Identifiers.

(** ** Creating an offer *)

Section Create.
Import InventoryManager.


End Create.

(** ** Completing an offer after its end time *)

Section Complete.
Import InventoryManager.
Implicit Types (m : InventoryManager.t) (o : Offer.t) (c : call).

(** Past the end time of an active offer only the highest bid decides. *)
Lemma complete_bid_closing m k o now :
  offers m !! k = Some o → Offer.status o = active →
  Offer.end_time o < now →
  complete_bid m k now
  = match Offer.get_highest_bid o with
    | (Some w, a) =>
        if truthy w
        then (Won w a,
              set_offers m (<[k := Offer.set_won o w a]> (offers m)))
        else return_stock m k o
    | (None, _) => return_stock m k o
    end.
Proof.
  intros Hk Hs Ht. unfold complete_bid.
  rewrite Hk, bool_decide_eq_true_2 by done. simpl.
  destruct (Z.leb_spec now (Offer.end_time o)); [lia | done].
Qed.



(** A winner with a non-empty identifier: the sale is recorded on the
    offer, which holds the first of the highest bids, and the inventory is
    not touched. *)
Lemma complete_bid_selects_first_max m k o now :
  offers m !! k = Some o → Offer.status o = active →
  Offer.end_time o < now → Offer.bids o ≠ [] →
  ∃ w a pre post,
    Offer.bids o = pre ++ (w, a) :: post
    ∧ Forall (λ x, (snd x < a)%Q) pre
    ∧ Forall (λ x, (snd x <= a)%Q) post
    ∧ (truthy w = true →
       complete_bid m k now
       = (Won w a, set_offers m (<[k := Offer.set_won o w a]> (offers m)))).
Proof.
  intros Hk Hs Ht Hb.
  destruct (get_highest_bid_first_max o Hb)
    as (w & a & pre & post & Hg & Heq & Hpre & Hpost).
  exists w, a, pre, post. split_and!; [done | done | done |].
  intros Hw. by rewrite (complete_bid_closing m k o), Hg, Hw.
Qed.



(** A call leaves every offer alone that is not active. *)
Lemma step_keeps_closed m c k o :
  wf m → offers m !! k = Some o → Offer.status o ≠ active →
  offers (step m c) !! k = Some o.
Proof.
  intros Hwf Hk Hs. destruct c as [i a|i q e|k' mer a now|k' now|i q]; simpl.
  - unfold update_stock. by repeat case_match.
  - unfold create_new_offer. repeat case_match; simpl; try done.
    rewrite lookup_insert_ne; [done |].
    intros Heq. rewrite <- Heq, next_id_fresh in Hk; done.
  - unfold track_bid. destruct (offers m !! k') as [o'|] eqn:Hk'; [|done].
    simpl. destruct (decide (k' = k)) as [->|Hne].
    + rewrite lookup_insert_eq. simplify_eq.
      by rewrite add_bid_not_active.
    + by rewrite lookup_insert_ne.
  - destruct (decide (k' = k)) as [->|Hne].
    + unfold complete_bid. by rewrite Hk, bool_decide_eq_false_2.
    + unfold complete_bid, return_stock.
      repeat case_match; simpl; try done; by rewrite lookup_insert_ne.
  - unfold process_one_off_order. by repeat case_match.
Qed.

Lemma run_keeps_closed cs m k o :
  wf m → offers m !! k = Some o → Offer.status o ≠ active →
  offers (run m cs) !! k = Some o.
Proof.
  revert m. induction cs as [|c cs IH]; intros m Hwf Hk Hs; [done |].
  simpl. apply IH; [by apply wf_step | by apply step_keeps_closed | done].
Qed.
End Complete.

(** ** Properties of completed and completing offers *)

Section Lifecycle.
Import InventoryManager.

(** C8: a completed offer is final.  A bid on it is rejected and leaves
    the offer as it is, [track_bid] and [complete_bid] on it return the
    manager as it is (offers and inventory), [complete_bid] taking the
    already-finalized path; and after any further calls the offer stored
    under its identifier is still the same, so it is completed once. *)
Theorem completed_is_terminal (m : InventoryManager.t) (k : string)
    (o : Offer.t) :
  reachable m → offers m !! k = Some o → Offer.status o = completed →
  (∀ merchant_id amount now,
     Offer.add_bid o merchant_id amount now = (false, o)
     ∧ track_bid m k merchant_id amount now = m)
  ∧ (∀ now, complete_bid m k now = (AlreadyFinalized, m))
  ∧ (∀ cs, offers (run m cs) !! k = Some o).
Proof.
  intros Hr Hk Hs.
  assert (Offer.status o ≠ active) as Hna by (by rewrite Hs).
  split_and!.
  - intros merchant_id amount now.
    split; [by apply add_bid_not_active |].
    unfold track_bid. rewrite Hk, add_bid_not_active by done. simpl.
    rewrite insert_id by done. apply set_offers_same.
  - intros now. unfold complete_bid.
    by rewrite Hk, bool_decide_eq_false_2.
  - intros cs. by apply run_keeps_closed; [apply reachable_wf | |].
Qed.


(** C1 (the code departs from it when the highest bidder has the empty
    string as identifier): reserve 20 of the 50 units of "TS-A", record one
    bid of 450 from the merchant "", complete after the end time.  The bids
    are not empty and their highest entry is ("", 450), yet the call takes
    the no-bids path: the offer is completed with no winner and winning bid
    0, and the 20 units are put back, so the stock is 50 again and not the
    30 left after the reservation. *)
Theorem complete_bid_empty_merchant_id :
  let m := run init [CreateNewOffer "TS-A" 20 100;
                     TrackBid "OFFER-1" "" 450 5] in
  let r := complete_bid m "OFFER-1" 101 in
  offers m !! "OFFER-1"
  = Some (Offer.mk "OFFER-1" "TS-A" 20 100 [("", 450%Q)] active None 0%Q)
  ∧ Offer.get_highest_bid
      (Offer.mk "OFFER-1" "TS-A" 20 100 [("", 450%Q)] active None 0%Q)
    = (Some "", 450%Q)
  ∧ stock_of m "TS-A" = Some 30
  ∧ fst r = NoBids Returned
  ∧ offers (snd r) !! "OFFER-1"
    = Some (Offer.mk "OFFER-1" "TS-A" 20 100 [("", 450%Q)] completed None
              0%Q)
  ∧ stock_of (snd r) "TS-A" = Some 50.
Proof. vm_compute. split_and!; reflexivity. Qed.

Lemma complete_bid_not_active (m : InventoryManager.t) (k : string)
    (o : Offer.t) (now : Z) :
  offers m !! k = Some o → Offer.status o ≠ active →
  complete_bid m k now = (AlreadyFinalized, m).
Proof.
  intros Hk Hs. unfold complete_bid. by rewrite Hk, bool_decide_eq_false_2.
Qed.



End Lifecycle.

(** ** The properties at work on the seed inventory *)

Section Examples.
Import InventoryManager.



(** A bid of 520 one tick after the end time 100 is rejected. *)
Lemma add_bid_after_end_time_example :
  let o := Offer.mk "OFFER-1" "TS-A" 20 100
             [("Merchant-Alpha", 510%Q); ("Merchant-Beta", 500%Q)]
             active None 0%Q in
  Offer.end_time o < 101
  ∧ Offer.add_bid o "Merchant-Gamma" 520 101 = (false, o).
Proof.
  intros o. split; [simpl; lia |].
  apply (add_bid_after_end_time o "Merchant-Gamma" 520 101). simpl. lia.
Defined.

(** Completing at the end time itself is too early; completing a completed
    offer is refused. *)
Lemma complete_bid_refused_example :
  let m := run init [CreateNewOffer "TS-A" 20 100] in
  let m' := snd (complete_bid m "OFFER-1" 101) in
  complete_bid m "OFFER-1" 100 = (StillOpen, m)
  ∧ complete_bid m' "OFFER-1" 102 = (AlreadyFinalized, m').
Proof.
  intros m m'. split.
  - apply (complete_bid_refused m "OFFER-1"
             (Offer.mk "OFFER-1" "TS-A" 20 100 [] active None 0%Q) 100).
    + vm_compute. reflexivity.
    + reflexivity.
    + simpl. lia.
  - apply (complete_bid_refused m' "OFFER-1"
             (Offer.mk "OFFER-1" "TS-A" 20 100 [] completed None 0%Q) 102).
    + vm_compute. reflexivity.
    + simpl. discriminate.
Defined.


(** After "OFFER-1" went to Merchant-Alpha, a late bid, a second
    completion and further calls leave the offer as it is. *)
Lemma completed_is_terminal_example :
  let m := run init [CreateNewOffer "TS-A" 20 100;
                     TrackBid "OFFER-1" "Merchant-Alpha" 450 5;
                     CompleteBid "OFFER-1" 101] in
  let o := Offer.mk "OFFER-1" "TS-A" 20 100 [("Merchant-Alpha", 450%Q)]
             completed (Some "Merchant-Alpha") 450%Q in
  offers m !! "OFFER-1" = Some o
  ∧ Offer.add_bid o "Merchant-Gamma" 520 6 = (false, o)
  ∧ track_bid m "OFFER-1" "Merchant-Gamma" 520 6 = m
  ∧ complete_bid m "OFFER-1" 200 = (AlreadyFinalized, m)
  ∧ offers (run m [CreateNewOffer "TS-A" 1 300;
                   TrackBid "OFFER-1" "Merchant-Beta" 900 150;
                   CompleteBid "OFFER-1" 400]) !! "OFFER-1" = Some o.
Proof.
  intros m o.
  assert (reachable m) as Hr by (by eexists).
  assert (offers m !! "OFFER-1" = Some o) as Hk by (vm_compute; reflexivity).
  destruct (completed_is_terminal m "OFFER-1" o Hr Hk eq_refl)
    as (Hbid & Hdone & Hrun).
  destruct (Hbid "Merchant-Gamma" 520%Q 6) as [H1 H2].
  split_and!.
  - exact Hk.
  - exact H1.
  - exact H2.
  - apply Hdone.
  - apply Hrun.
Defined.



End Examples.

(** * Further properties of the code *)

(** ** The highest bid *)







(** The answer of [get_highest_bid] is an entry and bounds all entries. *)
Lemma get_highest_bid_bounds (o : Offer.t) (w : string) (a : Q) :
  Offer.get_highest_bid o = (Some w, a) →
  (w, a) ∈ Offer.bids o
  ∧ Forall (λ x, (snd x <= a)%Q) (Offer.bids o).
Proof.
  intros H.
  destruct (Offer.bids o) as [|b rest] eqn:E.
  { by rewrite get_highest_bid_empty in H. }
  destruct (get_highest_bid_first_max o)
    as (w' & a' & pre & post & Hg & Hb & Hpre & Hpost); [by rewrite E |].
  rewrite Hg in H. injection H as <- <-. rewrite <- E, Hb. split.
  - apply elem_of_app. right. apply elem_of_cons. by left.
  - apply Forall_app. split.
    + eapply Forall_impl; [exact Hpre |]. intros x Hx. by apply Qlt_le_weak.
    + constructor; [apply Qle_refl | done].
Qed.

Section DictEntries.
Context {V : Type}.
Implicit Types (d : list (string * V)) (k : string) (v : V).


Lemma dict_get_None d k : dict_get d k = None ↔ k ∉ d.*1.
Proof.
  induction d as [|[k' v'] d IH]; simpl.
  - split; [intros _; apply not_elem_of_nil | done].
  - rewrite not_elem_of_cons. destruct (decide (k' = k)) as [->|Hne].
    + split; [done | by intros [? _]].
    + rewrite IH. split; [by intros ? | by intros [_ ?]].
Qed.

(** Setting a key keeps the keys without repetition. *)
Lemma dict_set_NoDup d k v : NoDup d.*1 → NoDup (dict_set d k v).*1.
Proof.
  intros Hd. destruct (dict_get d k) as [prev|] eqn:E.
  - rewrite dict_set_keys; [done | by rewrite E].
  - rewrite dict_set_fresh by done. rewrite fmap_app. simpl.
    apply NoDup_app. split_and!; [done | | apply NoDup_singleton].
    intros x Hx ->%list_elem_of_singleton. by apply dict_get_None in E.
Qed.
End DictEntries.

(** What an accepted bid says about the offer. *)
Lemma add_bid_accepted (o : Offer.t) (merchant_id : string) (amount : Q)
    (now : Z) :
  fst (Offer.add_bid o merchant_id amount now) = true →
  Offer.status o = active
  ∧ now ≤ Offer.end_time o
  ∧ (∀ prev, dict_get (Offer.bids o) merchant_id = Some prev →
             (prev < amount)%Q)
  ∧ snd (Offer.add_bid o merchant_id amount now)
    = Offer.set_bids o (dict_set (Offer.bids o) merchant_id amount).
Proof.
  unfold Offer.add_bid.
  destruct (decide (Offer.status o = active)) as [Hs|Hs];
    [rewrite bool_decide_eq_true_2 by done
    |rewrite bool_decide_eq_false_2 by done]; simpl; [|done].
  destruct (Z.ltb_spec (Offer.end_time o) now); [done |].
  destruct (dict_get (Offer.bids o) merchant_id) as [prev|] eqn:E.
  - destruct (Qle_bool amount prev) eqn:Hle; [done |]. simpl. intros _.
    split_and!; [done | lia | | done].
    intros ? [= <-]. apply Qnot_le_lt. intros Hc.
    apply Qle_bool_iff in Hc. congruence.
  - simpl. intros _. split_and!; [done | lia | done | done].
Qed.



(** ** What the stored offers keep true *)

Section OffersInvariant.
Import InventoryManager.
Implicit Types (m : InventoryManager.t) (o : Offer.t) (c : call).

Lemma offers_ok_init : offers_ok init.
Proof.
  split; simpl; try (intros k o; by rewrite lookup_empty).
  intros n Hn. lia.
Qed.

(** Calls that leave the offers and the counter alone. *)
Lemma offers_ok_same_offers m m' :
  offers m' = offers m → next_offer_id m' = next_offer_id m →
  offers_ok m → offers_ok m'.
Proof.
  intros Ho Hn [H1 H2 H3 H4 H5 H6].
  split; rewrite ?Ho, ?Hn; done.
Qed.

(** Replacing a stored offer by one that is in order. *)
Lemma offers_ok_set_offer m k o o' :
  offers_ok m → offers m !! k = Some o →
  Offer.offer_id o' = Offer.offer_id o →
  NoDup (Offer.bids o').*1 →
  Offer.status o' ≠ cancelled →
  (∀ w, Offer.winner o' = Some w →
        Offer.status o' = completed
        ∧ truthy w = true
        ∧ (w, Offer.winning_bid o') ∈ Offer.bids o'
        ∧ Forall (λ x, (snd x <= Offer.winning_bid o')%Q) (Offer.bids o')) →
  (Offer.winner o' = None → Offer.winning_bid o' = 0%Q) →
  offers_ok (set_offers m (<[k := o']> (offers m))).
Proof.
  intros [H1 H2 H3 H4 H5 H6] Hk Hid Hnd Hst Hw Hnw. split; simpl.
  - intros j x [[<- <-]|[_ H]]%lookup_insert_Some; [|by eapply H1].
    rewrite Hid. by eapply H1.
  - intros n Hn. apply lookup_insert_is_Some'. right. by apply H2.
  - intros j x [[_ <-]|[_ H]]%lookup_insert_Some; [done | by eapply H3].
  - intros j x [[_ <-]|[_ H]]%lookup_insert_Some; [done | by eapply H4].
  - intros j x w [[_ <-]|[_ H]]%lookup_insert_Some; [apply Hw | by eapply H5].
  - intros j x [[_ <-]|[_ H]]%lookup_insert_Some; [done | by eapply H6].
Qed.

Lemma offers_ok_create_new_offer m i q e :
  offers_ok m → offers_ok (snd (create_new_offer m i q e)).
Proof.
  intros Hok. unfold create_new_offer.
  destruct (inventory m !! i) as [it|]; [|done].
  destruct (Item.adjust_stock it (- q)) as [it'|]; [|done].
  destruct Hok as [H1 H2 H3 H4 H5 H6]. split; simpl.
  - intros j x [[<- <-]|[_ H]]%lookup_insert_Some; [done | by eapply H1].
  - intros n Hn.
    destruct (decide (n = next_offer_id m)) as [->|Hne].
    + by rewrite lookup_insert_eq.
    + apply lookup_insert_is_Some'. right. apply H2. lia.
  - intros j x [[_ <-]|[_ H]]%lookup_insert_Some;
      [apply NoDup_nil_2 | by eapply H3].
  - intros j x [[_ <-]|[_ H]]%lookup_insert_Some; [done | by eapply H4].
  - intros j x w [[_ <-]|[_ H]]%lookup_insert_Some; [done | by eapply H5].
  - intros j x [[_ <-]|[_ H]]%lookup_insert_Some; [done | by eapply H6].
Qed.

Lemma add_bid_NoDup o merchant_id amount now :
  NoDup (Offer.bids o).*1 →
  NoDup (Offer.bids (snd (Offer.add_bid o merchant_id amount now))).*1.
Proof.
  intros Hnd.
  destruct (fst (Offer.add_bid o merchant_id amount now)) eqn:Hacc.
  - destruct (add_bid_accepted o merchant_id amount now Hacc)
      as (_ & _ & _ & ->). simpl. by apply dict_set_NoDup.
  - unfold Offer.add_bid in *. by repeat case_match.
Qed.

Lemma offers_ok_track_bid m k mer a now :
  offers_ok m → offers_ok (track_bid m k mer a now).
Proof.
  intros Hok. unfold track_bid.
  destruct (offers m !! k) as [o|] eqn:Hk; [|done].
  destruct (decide (Offer.status o = active)) as [Hs|Hs].
  - destruct (add_bid_frame o mer a now) as [b Hb].
    eapply offers_ok_set_offer; [done | exact Hk | | | | |].
    + by rewrite Hb.
    + apply add_bid_NoDup. by eapply ok_keys.
    + rewrite Hb. simpl. by eapply ok_status.
    + rewrite Hb. simpl. intros w Hw.
      destruct (ok_winner m Hok _ _ _ Hk Hw) as [Hc _]. congruence.
    + rewrite Hb. simpl. by eapply ok_no_winner.
  - rewrite add_bid_not_active by done. simpl.
    rewrite insert_id by done. by rewrite set_offers_same.
Qed.

Lemma offers_ok_return_stock m k o :
  offers_ok m → offers m !! k = Some o → Offer.status o = active →
  offers_ok (snd (return_stock m k o)).
Proof.
  intros Hok Hk Hs.
  assert (offers_ok (set_offers m
            (<[k := Offer.set_status o completed]> (offers m)))) as Hok'.
  { eapply offers_ok_set_offer; [done | exact Hk | done | | done | |]; simpl.
    - by eapply ok_keys.
    - intros w Hw.
      destruct (ok_winner m Hok _ _ _ Hk Hw) as [Hc _]. congruence.
    - by eapply ok_no_winner. }
  unfold return_stock. repeat case_match; simpl; try done.
  by eapply offers_ok_same_offers; [| |exact Hok'].
Qed.

Lemma offers_ok_complete_bid m k now :
  offers_ok m → offers_ok (snd (complete_bid m k now)).
Proof.
  intros Hok. unfold complete_bid.
  destruct (offers m !! k) as [o|] eqn:Hk; [|done].
  destruct (decide (Offer.status o = active)) as [Hs|Hs];
    [rewrite bool_decide_eq_true_2 by done
    |rewrite bool_decide_eq_false_2 by done]; simpl; [|done].
  destruct (now <=? Offer.end_time o); [done |].
  destruct (Offer.get_highest_bid o) as [[w|] a] eqn:Hg;
    [destruct (truthy w) eqn:Hw |]; try by apply offers_ok_return_stock.
  simpl. destruct (get_highest_bid_bounds o w a Hg) as [Hin Hall].
  eapply offers_ok_set_offer; [done | exact Hk | done | | done | |]; simpl.
  - by eapply ok_keys.
  - by intros ? [= <-].
  - done.
Qed.

Lemma offers_ok_step m c : offers_ok m → offers_ok (step m c).
Proof.
  intros Hok. destruct c as [i a|i q e|k mer a now|k now|i q]; simpl.
  - eapply offers_ok_same_offers; [| |exact Hok];
      unfold update_stock; by repeat case_match.
  - by apply offers_ok_create_new_offer.
  - by apply offers_ok_track_bid.
  - by apply offers_ok_complete_bid.
  - eapply offers_ok_same_offers; [| |exact Hok];
      unfold process_one_off_order; by repeat case_match.
Qed.

Lemma offers_ok_run cs m : offers_ok m → offers_ok (run m cs).
Proof.
  revert m. induction cs as [|c cs IH]; intros m H; [done |].
  simpl. apply IH. by apply offers_ok_step.
Qed.

Lemma reachable_offers_ok m : reachable m → offers_ok m.
Proof. intros [cs ->]. apply offers_ok_run, offers_ok_init. Qed.

(** X3: in every manager reached from the initial one, no merchant has
    two entries in the bids of an offer. *)
Theorem bids_one_entry_per_merchant m k o :
  reachable m → offers m !! k = Some o → NoDup (Offer.bids o).*1.
Proof. intros Hr Hk. eapply ok_keys; [by apply reachable_offers_ok | done]. Qed.

(** X4: in every manager reached from the initial one, no offer is
    cancelled; an offer with a recorded winner is completed, the winner has
    a non-empty identifier and an entry in the bids whose amount is the
    winning bid, and no entry has a greater amount; an offer without winner
    has the winning bid 0, and an active offer has no winner. *)
Theorem winner_is_a_highest_bidder m k o :
  reachable m → offers m !! k = Some o →
  Offer.status o ≠ cancelled
  ∧ (∀ w, Offer.winner o = Some w →
          Offer.status o = completed
          ∧ w ≠ ""
          ∧ dict_get (Offer.bids o) w = Some (Offer.winning_bid o)
          ∧ Forall (λ x, (snd x <= Offer.winning_bid o)%Q) (Offer.bids o))
  ∧ (Offer.winner o = None → Offer.winning_bid o = 0%Q)
  ∧ (Offer.status o = active → Offer.winner o = None).
Proof.
  intros Hr Hk.
  pose proof (reachable_offers_ok m Hr) as Hok.
  split_and!.
  - by eapply ok_status.
  - intros w Hw.
    destruct (ok_winner m Hok _ _ _ Hk Hw) as (Hc & Ht & Hin & Hall).
    split_and!; [done | | | done].
    + intros ->. done.
    + pose proof (ok_keys m Hok _ _ Hk) as Hnd.
      revert Hin Hnd. generalize (Offer.winning_bid o) (Offer.bids o).
      intros a d. induction d as [|[k' v'] d IH]; simpl.
      * by intros ?%elem_of_nil.
      * intros Hin [Hnotin Hnd]%NoDup_cons.
        apply elem_of_cons in Hin as [[= <- <-]|Hin].
        -- by rewrite decide_True.
        -- rewrite decide_False; [by apply IH |].
           intros ->. apply Hnotin.
           by apply (list_elem_of_fmap_2 fst) in Hin.
  - by eapply ok_no_winner.
  - eapply wf_winner; [by apply reachable_wf | done].
Qed.

(** X5: in every manager reached from the initial one, the identifiers in
    use are exactly "OFFER-1" up to "OFFER-n" for the counter [n + 1], and
    every offer holds the identifier it is stored under. *)
Theorem offer_ids_are_the_issued_ones m :
  reachable m →
  (∀ k, is_Some (offers m !! k)
        ↔ ∃ n, 1 ≤ n < next_offer_id m ∧ k = format_offer_id n)
  ∧ (∀ k o, offers m !! k = Some o → Offer.offer_id o = k).
Proof.
  intros Hr. split.
  - intros k. split.
    + intros [o Hk]. eapply wf_ids; [by apply reachable_wf | done].
    + intros (n & Hn & ->).
      eapply ok_dense; [by apply reachable_offers_ok | done].
  - intros k o Hk. eapply ok_self; [by apply reachable_offers_ok | done].
Qed.
End OffersInvariant.

(** ** Offers over time *)

Section OffersOverTime.
Import InventoryManager.
Implicit Types (m : InventoryManager.t) (o : Offer.t) (c : call).







End OffersOverTime.

(** ** The inventory over time *)

Section Catalog.
Import InventoryManager.
Implicit Types (m : InventoryManager.t) (c : call).

Lemma same_item_refl (it : Item.t) : same_item it it.
Proof. unfold same_item. by rewrite set_stock_same. Qed.

Lemma same_item_trans (a b c : Item.t) :
  same_item a b → same_item b c → same_item a c.
Proof. unfold same_item. intros -> ->. done. Qed.

(** A call leaves the inventory alone or gives one known item a new,
    non-negative stock. *)
Lemma step_inventory m c :
  inventory (step m c) = inventory m
  ∨ ∃ i it x, inventory m !! i = Some it ∧ 0 ≤ x
              ∧ inventory (step m c)
                = <[i := Item.set_stock it x]> (inventory m).
Proof.
  destruct c as [i a|i q e|k mer a now|k now|i q]; simpl.
  - unfold update_stock.
    destruct (inventory m !! i) as [it|] eqn:Hi; [|by left].
    destruct (Item.adjust_stock it a) as [it'|] eqn:Ha; [|by left].
    apply adjust_stock_inv in Ha as [Hx ->]. right. by eexists i, it, _.
  - unfold create_new_offer.
    destruct (inventory m !! i) as [it|] eqn:Hi; [|by left].
    destruct (Item.adjust_stock it (- q)) as [it'|] eqn:Ha; [|by left].
    apply adjust_stock_inv in Ha as [Hx ->]. right. by eexists i, it, _.
  - unfold track_bid. left. by destruct (offers m !! k).
  - unfold complete_bid, return_stock.
    destruct (offers m !! k) as [o|]; [|by left].
    destruct (negb _); [by left |].
    destruct (now <=? Offer.end_time o); [by left |].
    destruct (inventory m !! Offer.item_id o) as [it|] eqn:Hi.
    + destruct (Item.adjust_stock it (Offer.quantity o)) as [it'|] eqn:Ha.
      * apply adjust_stock_inv in Ha as [Hx ->].
        repeat case_match; simpl; try (by left);
          right; by eexists (Offer.item_id o), it, _.
      * left. by repeat case_match.
    + left. by repeat case_match.
  - unfold process_one_off_order.
    destruct (inventory m !! i) as [it|] eqn:Hi; [|by left].
    destruct (Item.adjust_stock it (- q)) as [it'|] eqn:Ha; [|by left].
    apply adjust_stock_inv in Ha as [Hx ->]. right. by eexists i, it, _.
Qed.

Lemma step_same_item m c k :
  option_Forall2 same_item (inventory m !! k) (inventory (step m c) !! k).
Proof.
  destruct (step_inventory m c) as [->|(i & it & x & Hi & _ & ->)].
  - destruct (inventory m !! k); constructor. apply same_item_refl.
  - destruct (decide (i = k)) as [->|Hne].
    + rewrite lookup_insert_eq, Hi. by constructor.
    + rewrite lookup_insert_ne by done.
      destruct (inventory m !! k); constructor. apply same_item_refl.
Qed.

Lemma run_same_item cs m k :
  option_Forall2 same_item (inventory m !! k) (inventory (run m cs) !! k).
Proof.
  revert m. induction cs as [|c cs IH]; intros m; simpl.
  - destruct (inventory m !! k); constructor. apply same_item_refl.
  - pose proof (step_same_item m c k) as H1. specialize (IH (step m c)).
    destruct H1; inversion IH; simplify_eq; constructor.
    by eapply same_item_trans.
Qed.

Lemma init_inventory_keys k :
  is_Some (inventory init !! k) ↔ k ∈ ["TS-A"; "TS-B"; "SH-C"].
Proof.
  unfold init, load_initial_inventory. simpl.
  rewrite !lookup_insert_is_Some, lookup_empty, !elem_of_cons, elem_of_nil.
  split.
  - intros [<-|[_ [<-|[_ [<-|[_ []%is_Some_None]]]]]]; auto.
  - intros [->|[->|[->|[]]]].
    + right. split; [done |]. right. split; [done |]. by left.
    + right. split; [done |]. by left.
    + by left.
Qed.

Lemma reachable_inventory_keys m k :
  reachable m →
  is_Some (inventory m !! k) ↔ k ∈ ["TS-A"; "TS-B"; "SH-C"].
Proof.
  intros [cs ->]. rewrite <- init_inventory_keys.
  pose proof (run_same_item cs init k) as H.
  destruct (inventory init !! k), (inventory (run init cs) !! k);
    inversion H; split; intros [? ?]; by eauto.
Qed.

(** X7: no call adds or removes an item or changes anything of an item
    but its stock: after any calls an identifier is known exactly if it was
    before, and the item under it differs from the one before at most in
    the stock.  So from the initial manager the known items are always
    "TS-A", "TS-B" and "SH-C", each with the name, category, unit price,
    restock date and reorder threshold it started with and stored under its
    own identifier. *)
Theorem inventory_catalog_is_fixed (cs : list call) (k : string) :
  (∀ m, option_Forall2 same_item
          (inventory m !! k) (inventory (run m cs) !! k))
  ∧ (is_Some (inventory (run init cs) !! k)
     ↔ k ∈ ["TS-A"; "TS-B"; "SH-C"])
  ∧ (∀ it, inventory (run init cs) !! k = Some it →
       Item.item_id it = k
       ∧ ∃ seed, seed ∈ initial_items ∧ same_item seed it).
Proof.
  split_and!.
  - intros m. apply run_same_item.
  - apply reachable_inventory_keys. by exists cs.
  - intros it Hk. pose proof (run_same_item cs init k) as H.
    rewrite Hk in H. inversion H as [seed ? Hsame Hseed|]; subst.
    symmetry in Hseed. unfold init, load_initial_inventory in Hseed.
    simpl in Hseed. unfold same_item in Hsame. rewrite Hsame.
    repeat (apply lookup_insert_Some in Hseed as [[<- <-]|[_ Hseed]];
            [split; [done |]; eexists; split; [|done];
             unfold initial_items; set_solver |]).
    by rewrite lookup_empty in Hseed.
Qed.

(** X8: in every manager reached from the initial one, a call that names
    an item other than the three seed items, or an offer identifier that
    was not issued yet, changes nothing; where the call has a result, it is
    [None]. *)
Theorem unissued_identifiers_change_nothing m :
  reachable m →
  (∀ i, i ∉ ["TS-A"; "TS-B"; "SH-C"] →
        (∀ a, update_stock m i a = m)
        ∧ (∀ q e, create_new_offer m i q e = (None, m))
        ∧ (∀ q, process_one_off_order m i q = (None, m)))
  ∧ (∀ k, (∀ n, 1 ≤ n < next_offer_id m → k ≠ format_offer_id n) →
        (∀ mer a now, track_bid m k mer a now = m)
        ∧ (∀ now, complete_bid m k now = (OfferNotFound, m))).
Proof.
  intros Hr. split.
  - intros i Hi.
    assert (inventory m !! i = None) as Hnone.
    { apply eq_None_not_Some. by rewrite reachable_inventory_keys. }
    unfold update_stock, create_new_offer, process_one_off_order.
    by rewrite Hnone.
  - intros k Hk.
    assert (offers m !! k = None) as Hnone.
    { apply eq_None_not_Some. intros [o Ho].
      destruct (wf_ids m (reachable_wf m Hr) _ _ Ho) as (n & Hn & ->).
      by eapply Hk. }
    unfold track_bid, complete_bid. by rewrite Hnone.
Qed.
End Catalog.

(** ** Orders, adjustments and sales *)

Section Orders.
Import InventoryManager.
Implicit Types (m : InventoryManager.t) (c : call).

Lemma set_stock_set_stock (it : Item.t) (x y : Z) :
  Item.set_stock (Item.set_stock it x) y = Item.set_stock it y.
Proof. done. Qed.

Lemma set_inventory_same m : set_inventory m (inventory m) = m.
Proof. by destruct m. Qed.


(** X10: two accepted adjustments of one item in a row are the adjustment
    by the sum; so an accepted adjustment followed by the opposite one
    gives back the manager one started from. *)
Theorem update_stock_composes m (i : string) (it : Item.t) (a b : Z) :
  inventory m !! i = Some it →
  0 ≤ Item.stock it + a →
  (0 ≤ Item.stock it + a + b →
     update_stock (update_stock m i a) i b = update_stock m i (a + b))
  ∧ (0 ≤ Item.stock it → update_stock (update_stock m i a) i (- a) = m).
Proof.
  intros Hi Ha.
  assert (∀ b, 0 ≤ Item.stock it + a + b →
            update_stock (update_stock m i a) i b
            = set_inventory m
                (<[i := Item.set_stock it (Item.stock it + a + b)]>
                   (inventory m))) as Hab.
  { intros b' Hb. unfold update_stock at 2.
    rewrite Hi, adjust_stock_accepts by done.
    unfold update_stock. simpl. rewrite lookup_insert_eq.
    rewrite adjust_stock_accepts by (simpl; lia).
    unfold set_inventory. simpl. by rewrite insert_insert_eq. }
  split.
  - intros Hb. rewrite Hab by done. unfold update_stock.
    rewrite Hi, adjust_stock_accepts by lia. by rewrite Z.add_assoc.
  - intros H0. rewrite Hab by lia.
    replace (Item.stock it + a + - a) with (Item.stock it) by lia.
    rewrite set_stock_same, insert_id by done. apply set_inventory_same.
Qed.



(** X13: bidding never touches the stock: after any sequence of
    [track_bid] calls the inventory and the counter are as before and the
    same offer identifiers are in use. *)
Theorem bidding_leaves_inventory_alone m
    (bs : list (string * string * Q * Z)) :
  let m' := run m (map (λ '(k, mer, a, now), TrackBid k mer a now) bs) in
  inventory m' = inventory m
  ∧ next_offer_id m' = next_offer_id m
  ∧ ∀ k, is_Some (offers m' !! k) ↔ is_Some (offers m !! k).
Proof.
  revert m. induction bs as [|[[[k mer] a] now] bs IH]; intros m; simpl.
  - done.
  - destruct (IH (track_bid m k mer a now)) as (H1 & H2 & H3).
    rewrite H1, H2. unfold track_bid in *.
    destruct (offers m !! k) as [o|] eqn:Hk; simpl in *; [|done].
    split_and!; [done | done |].
    intros j. rewrite H3, lookup_insert_is_Some. split.
    + intros [<-|[_ ?]]; [by rewrite Hk | done].
    + intros Hj. destruct (decide (k = j)); [by left | by right].
Qed.
End Orders.

(** ** Repeating a call *)

Section Repeating.
Import InventoryManager.
Implicit Types (m : InventoryManager.t) (o : Offer.t).

(** After the sale path or the no-bids path the offer is completed. *)
Lemma complete_bid_completes m k now :
  (∃ w a, fst (complete_bid m k now) = Won w a)
  ∨ (∃ c, fst (complete_bid m k now) = NoBids c) →
  ∃ o', offers (snd (complete_bid m k now)) !! k = Some o'
        ∧ Offer.status o' = completed.
Proof.
  unfold complete_bid, return_stock.
  destruct (offers m !! k) as [o|] eqn:Hk;
    [|by intros [(? & ? & ?)|(? & ?)]].
  destruct (negb _); [by intros [(? & ? & ?)|(? & ?)] |].
  destruct (now <=? Offer.end_time o); [by intros [(? & ? & ?)|(? & ?)] |].
  intros _.
  repeat case_match; simpl; rewrite lookup_insert_eq; by eexists.
Qed.

(** X14: once [complete_bid] has taken the sale path or the no-bids path,
    every later [complete_bid] on the same offer, at any time, is refused
    as already finalized and changes nothing; and calling [complete_bid]
    twice with the same time gives the same manager as calling it once,
    whatever the first call did. *)
Theorem complete_bid_twice m (k : string) (now : Z) :
  let r := complete_bid m k now in
  ((∃ w a, fst r = Won w a) ∨ (∃ c, fst r = NoBids c) →
     ∀ later, complete_bid (snd r) k later = (AlreadyFinalized, snd r))
  ∧ snd (complete_bid (snd r) k now) = snd r.
Proof.
  intros r.
  assert ((∃ w a, fst r = Won w a) ∨ (∃ c, fst r = NoBids c) →
          ∀ later, complete_bid (snd r) k later = (AlreadyFinalized, snd r))
    as Hdone.
  { intros H later.
    destruct (complete_bid_completes m k now H) as (o' & Hk' & Hs').
    eapply complete_bid_not_active; [exact Hk' | by rewrite Hs']. }
  split; [done |].
  destruct (offers m !! k) as [o|] eqn:Hk.
  2: { subst r. unfold complete_bid. rewrite Hk. simpl. by rewrite Hk. }
  destruct (decide (Offer.status o = active)) as [Hs|Hs].
  2: { subst r. rewrite (complete_bid_not_active m k o) by done. simpl.
       by rewrite (complete_bid_not_active m k o). }
  destruct (Z.le_gt_cases now (Offer.end_time o)) as [Ht|Ht].
  - assert (complete_bid m k now = (StillOpen, m)) as Hopen.
    { unfold complete_bid. rewrite Hk, bool_decide_eq_true_2 by done. simpl.
      destruct (Z.leb_spec now (Offer.end_time o)); [done | lia]. }
    subst r. rewrite Hopen. simpl. by rewrite Hopen.
  - rewrite Hdone; [done |]. subst r.
    rewrite (complete_bid_closing m k o) by (done || lia).
    unfold return_stock. repeat case_match; simpl; eauto.
Qed.

End Repeating.

(** ** The further properties at work *)

Section MoreExamples.
Import InventoryManager.



(** The state after the bids of the test run of mian.py. *)
Lemma bids_one_entry_per_merchant_example :
  let m := run init [CreateNewOffer "TS-A" 20 100;
                     TrackBid "OFFER-1" "Merchant-Alpha" 450 5;
                     TrackBid "OFFER-1" "Merchant-Beta" 500 6;
                     TrackBid "OFFER-1" "Merchant-Alpha" 510 7] in
  let o := Offer.mk "OFFER-1" "TS-A" 20 100
             [("Merchant-Alpha", 510%Q); ("Merchant-Beta", 500%Q)]
             active None 0%Q in
  offers m !! "OFFER-1" = Some o ∧ NoDup (Offer.bids o).*1.
Proof.
  intros m o.
  assert (offers m !! "OFFER-1" = Some o) as Hk by (vm_compute; reflexivity).
  split; [exact Hk |].
  apply (bids_one_entry_per_merchant m "OFFER-1" o); [by eexists | exact Hk].
Defined.

(** After that run is completed, Alpha is on record with 510. *)
Lemma winner_is_a_highest_bidder_example :
  let m := run init [CreateNewOffer "TS-A" 20 100;
                     TrackBid "OFFER-1" "Merchant-Alpha" 450 5;
                     TrackBid "OFFER-1" "Merchant-Beta" 500 6;
                     TrackBid "OFFER-1" "Merchant-Alpha" 510 7;
                     CompleteBid "OFFER-1" 101] in
  let o := Offer.mk "OFFER-1" "TS-A" 20 100
             [("Merchant-Alpha", 510%Q); ("Merchant-Beta", 500%Q)]
             completed (Some "Merchant-Alpha") 510%Q in
  offers m !! "OFFER-1" = Some o
  ∧ dict_get (Offer.bids o) "Merchant-Alpha" = Some (Offer.winning_bid o)
  ∧ Forall (λ x, (snd x <= Offer.winning_bid o)%Q) (Offer.bids o).
Proof.
  intros m o.
  assert (offers m !! "OFFER-1" = Some o) as Hk by (vm_compute; reflexivity).
  destruct (winner_is_a_highest_bidder m "OFFER-1" o) as (_ & Hw & _);
    [by eexists | exact Hk |].
  destruct (Hw "Merchant-Alpha" eq_refl) as (_ & _ & H1 & H2).
  split_and!; [exact Hk | exact H1 | exact H2].
Defined.

(** After two offers "OFFER-1" and "OFFER-2" are in use, "OFFER-3" not. *)
Lemma offer_ids_are_the_issued_ones_example :
  let m := run init [CreateNewOffer "TS-A" 20 100;
                     CreateNewOffer "TS-A" 1000 100;
                     CreateNewOffer "TS-B" 5 100] in
  next_offer_id m = 3
  ∧ is_Some (offers m !! "OFFER-2")
  ∧ ¬ is_Some (offers m !! "OFFER-3").
Proof.
  intros m.
  assert (reachable m) as Hr by (by eexists).
  destruct (offer_ids_are_the_issued_ones m Hr) as [Hids _].
  assert (next_offer_id m = 3) as Hn3 by (vm_compute; reflexivity).
  split_and!.
  - exact Hn3.
  - apply Hids. exists 2. rewrite Hn3. split; [lia | reflexivity].
  - intros (n & Hn & Heq)%Hids. rewrite Hn3 in Hn.
    apply (format_offer_id_inj 3 n) in Heq. lia.
Defined.


(** Whatever is done, "TS-B" stays a T-shirt at 25 and "TS-Z" unknown. *)
Lemma inventory_catalog_is_fixed_example :
  let cs := [ProcessOneOffOrder "TS-B" 2; CreateNewOffer "TS-B" 5 100] in
  is_Some (inventory (run init cs) !! "TS-B")
  ∧ ¬ is_Some (inventory (run init cs) !! "TS-Z")
  ∧ ∀ it, inventory (run init cs) !! "TS-B" = Some it →
          Item.item_id it = "TS-B".
Proof.
  intros cs.
  destruct (inventory_catalog_is_fixed cs "TS-B") as (_ & Hb & Hit).
  destruct (inventory_catalog_is_fixed cs "TS-Z") as (_ & Hz & _).
  split_and!.
  - apply Hb. repeat constructor.
  - intros H%Hz. repeat (apply elem_of_cons in H as [[=]|H]).
    by apply elem_of_nil in H.
  - intros it Hi. by destruct (Hit it Hi).
Defined.

(** A bid on "OFFER-7" and an order of "TS-Z" on a fresh manager. *)
Lemma unissued_identifiers_change_nothing_example :
  track_bid init "OFFER-7" "Merchant-Alpha" 450 5 = init
  ∧ complete_bid init "OFFER-7" 101 = (OfferNotFound, init)
  ∧ process_one_off_order init "TS-Z" 1 = (None, init)
  ∧ update_stock init "TS-Z" 1 = init.
Proof.
  destruct (unissued_identifiers_change_nothing init reachable_init)
    as [Hitems Hoffers].
  destruct (Hoffers "OFFER-7") as [H1 H2].
  { intros n Hn. simpl in Hn. lia. }
  destruct (Hitems "TS-Z") as (H3 & _ & H4).
  { intros H. repeat (apply elem_of_cons in H as [[=]|H]).
    by apply elem_of_nil in H. }
  split_and!; [apply H1 | apply H2 | apply H4 | apply H3].
Defined.


(** Five damaged units written off and booked back in. *)
Lemma update_stock_composes_example :
  update_stock (update_stock init "TS-A" (-5)) "TS-A" (-20)
  = update_stock init "TS-A" (-25)
  ∧ update_stock (update_stock init "TS-A" (-5)) "TS-A" 5 = init.
Proof.
  pose (ts_a := Item.mk "TS-A" "T-Shirt style A" "Clothing" 50 20
                  (2025, 9, 1) 10).
  assert (inventory init !! "TS-A" = Some ts_a) as Hi
    by (vm_compute; reflexivity).
  destruct (update_stock_composes init "TS-A" ts_a (-5) (-20) Hi)
    as [H1 _]; [simpl; lia |].
  destruct (update_stock_composes init "TS-A" ts_a (-5) 0 Hi)
    as [_ H2]; [simpl; lia |].
  split; [apply H1; simpl; lia | apply H2; simpl; lia].
Defined.



(** Completing "OFFER-1" a second time, a day later. *)
Lemma complete_bid_twice_example :
  let m := run init [CreateNewOffer "TS-B" 5 100] in
  let m' := snd (complete_bid m "OFFER-1" 101) in
  fst (complete_bid m "OFFER-1" 101) = NoBids Returned
  ∧ complete_bid m' "OFFER-1" 86501 = (AlreadyFinalized, m').
Proof.
  intros m m'.
  assert (fst (complete_bid m "OFFER-1" 101) = NoBids Returned) as Hr
    by (vm_compute; reflexivity).
  split; [exact Hr |].
  destruct (complete_bid_twice m "OFFER-1" 101) as [H _].
  apply H. right. by exists Returned.
Defined.

End MoreExamples.
